(** * useOnClickOutside: outside-interaction detection

    A shallow embedding of [src/hooks/dom/useOnClickOutside.ts] and of the
    host primitives it calls, with the properties of the handler and of the
    listener life cycle.

    The hook is eight lines of TypeScript:
<<
    export default function useOnClickOutside(elementRef, callback): void {
     useEffect(() => {
      function handleClick(e: MouseEvent | TouchEvent) {
       if (!elementRef.current?.contains(e.target as Node)) {
        callback();
       }
      }
      useEventListener("mousedown", handleClick);
      useEventListener("touchstart", handleClick);
     }, [elementRef, callback])
    }
>>
    Mutable JavaScript state is threaded explicitly through a small state
    monad over a record [World]; objects with identity (refs, callbacks,
    function closures, DOM nodes) are named by identifiers. *)

From stdpp Require Import base option list strings gmap.

Set Default Proof Using "Type".

(** ** The DOM: nodes and the containment test *)

Module Dom.

Definition NodeId := positive.

(** A DOM node together with its subtree. [nodeId] stands for the
    identity of the JavaScript object (what [===] compares). *)
#[warnings="-register-all"] Inductive Node := Element { nodeId : NodeId; childNodes : list Node }.

(** Modelled from the spec: [Node.prototype.contains] belongs to the DOM
    of the host. "Containment test: structural ancestry check -- origin
    node equals the element or is a descendant of it in the document tree"
    (section 4.1). This is the search once the argument is a node: is
    [other] the receiver or somewhere below it. *)
Fixpoint has_inclusive_descendant (other : NodeId) (self : Node) : bool :=
  match self with
  | Element i kids =>
      bool_decide (i = other) || existsb (has_inclusive_descendant other) kids
  end.

(** Modelled from the spec: [self.contains(other)], the same host method
    with its argument as the handler passes it. A [null] argument is
    contained in nothing; a node is looked for in the subtree of [self]. *)
Definition contains (self : Node) (other : option NodeId) : bool :=
  match other with
  | None => false
  | Some o => has_inclusive_descendant o self
  end.

(** The relations the claims speak of, stated independently of the
    search: [t] is a (strict) descendant of [el] when it is a child of
    [el] or a descendant of a child. *)
Inductive descendant (t : NodeId) : Node -> Prop :=
| desc_child i kids k :
    k ∈ kids -> nodeId k = t -> descendant t (Element i kids)
| desc_below i kids k :
    k ∈ kids -> descendant t k -> descendant t (Element i kids).

(** Inside the subtree of [el]: equal to [el] or a descendant of it. *)
Definition inside (t : NodeId) (el : Node) : Prop :=
  t = nodeId el \/ descendant t el.

(** All node identities of a subtree, in document order. *)
Fixpoint subtree_ids (n : Node) : list NodeId :=
  match n with
  | Element i kids => i :: flat_map subtree_ids kids
  end.

End Dom.

Import Dom.

(** ** JavaScript operators used by the guard *)

Module Js.

(** [recv?.method(args)]: [undefined] (here [None]) when the receiver is
    [null] or [undefined], the result of the call otherwise. *)
Definition optional_call {A B : Type} (recv : option A) (method : A -> B)
  : option B :=
  match recv with
  | None => None
  | Some obj => Some (method obj)
  end.

(** [!v] for [v : boolean | undefined]: [undefined] is falsy. *)
Definition not (v : option bool) : bool :=
  match v with
  | None => true
  | Some b => negb b
  end.

End Js.

(** ** Identities and events *)

(** Identity of a [RefObject] (the object whose [current] field is read). *)
Definition RefId := positive.

(** Identity of a caller-supplied callback function. *)
Definition CbId := positive.

(** The part of a [MouseEvent | TouchEvent] that the hook can observe. *)
Record Event := { type : string; target : option NodeId }.

(** A [handleClick] function object: the effect creates a new one each time
    it runs, closing over the hook's two parameters. [fn_id] is the identity
    of the function object. *)
Record Closure :=
  { fn_id : nat; captured_elementRef : RefId; captured_callback : CbId }.

(** An entry of the listener list of the global input surface. *)
Definition Listener : Type := string * Closure.

Global Instance Event_eq_dec : EqDecision Event.
Proof. solve_decision. Defined.

Global Instance Closure_eq_dec : EqDecision Closure.
Proof. solve_decision. Defined.

(** ** The world and its state monad *)

Section Runtime.

(** State owned by the application, which only callbacks touch. *)
Context {U : Type}.

(** Everything a caller-supplied callback can read and write. *)
Record Page :=
  { document : Node;
    refs : gmap RefId (option Node);
    user : U }.

Record World :=
  { page : Page;
    (** listeners on the global input surface, in registration order *)
    surface : list Listener;
    (** the cleanup that the last run of the effect returned, as the
        listeners it removes; empty when the effect returned none *)
    cleanups : list Listener;
    (** dependency array of the last effect run; [None] when unmounted *)
    deps : option (RefId * CbId);
    (** next unused function identity *)
    next_fn : nat;
    (** callbacks invoked so far, oldest first *)
    calls : list CbId }.

(** Behaviour of the callbacks of the application. *)
Context (cb_body : CbId -> Page -> Page).

Definition M (A : Type) : Type := World -> A * World.

Global Instance M_ret : MRet M := fun A a w => (a, w).

Global Instance M_bind : MBind M :=
  fun A B f m w => match m w with (a, w') => f a w' end.

Definition get : M World := fun w => (w, w).

Definition modify (f : World -> World) : M unit := fun w => (tt, f w).

Definition with_page (f : Page -> Page) (w : World) : World :=
  {| page := f (page w); surface := surface w; cleanups := cleanups w;
     deps := deps w; next_fn := next_fn w; calls := calls w |}.

Definition with_surface (f : list Listener -> list Listener) (w : World)
  : World :=
  {| page := page w; surface := f (surface w); cleanups := cleanups w;
     deps := deps w; next_fn := next_fn w; calls := calls w |}.

Definition with_cleanups (f : list Listener -> list Listener) (w : World)
  : World :=
  {| page := page w; surface := surface w; cleanups := f (cleanups w);
     deps := deps w; next_fn := next_fn w; calls := calls w |}.

Definition with_deps (d : option (RefId * CbId)) (w : World) : World :=
  {| page := page w; surface := surface w; cleanups := cleanups w;
     deps := d; next_fn := next_fn w; calls := calls w |}.

Definition with_next_fn (n : nat) (w : World) : World :=
  {| page := page w; surface := surface w; cleanups := cleanups w;
     deps := deps w; next_fn := n; calls := calls w |}.

Definition with_calls (f : list CbId -> list CbId) (w : World) : World :=
  {| page := page w; surface := surface w; cleanups := cleanups w;
     deps := deps w; next_fn := next_fn w; calls := f (calls w) |}.

(** [elementRef.current]; a ref that was never assigned holds [null]. *)
Definition current (elementRef : RefId) (p : Page) : option Node :=
  default None (refs p !! elementRef).

Definition read_current (elementRef : RefId) : M (option Node) :=
  fun w => (current elementRef (page w), w).

(** The world after [callback()] ran in [w]: the body has acted on the
    page and the invocation is on record. *)
Definition after_callback (callback : CbId) (w : World) : World :=
  with_calls (fun l => l ++ [callback]) (with_page (cb_body callback) w).

Definition invoke (callback : CbId) : M unit :=
  modify (after_callback callback).

(** *** The handler of the source

    [[
    function handleClick(e) {
      if (!elementRef.current?.contains(e.target as Node)) { callback(); }
    }
    ]]
    The event object is handed back so that a write to it would show. *)
Definition handleClick (elementRef : RefId) (callback : CbId) (e : Event)
  : M Event :=
  cur ← read_current elementRef;
  if Js.not (Js.optional_call cur (fun el => contains el (target e)))
  then invoke callback ;; mret e
  else mret e.

(** Calling a [handleClick] function object. *)
Definition call (h : Closure) (e : Event) : M Event :=
  handleClick (captured_elementRef h) (captured_callback h) e.

(** *** Host primitives *)

(** Modelled from the spec: event delivery by the host is not code of the
    repository. "Registers two event listeners on the global input
    surface ... On each such event" (section 4.1): an event is delivered
    to the listeners registered for its type, in registration order, and
    every listener is handed the same event object. *)
Fixpoint deliver (hs : list Closure) (e : Event) : M Event :=
  match hs with
  | [] => mret e
  | h :: rest => e' ← call h e; deliver rest e'
  end.

(** Modelled from the spec: the listeners that the host calls for an event
    named [eventName], out of those on the surface. *)
Definition listeners_for (eventName : string) (ls : list Listener)
  : list Closure :=
  snd <$> filter (fun l => l.1 = eventName) ls.

(** Modelled from the spec: the host delivers one input event to the
    global input surface. *)
Definition dispatchEvent (e : Event) : M Event :=
  w ← get; deliver (listeners_for (type e) (surface w)) e.

(** Modelled from the spec: removing a listener from the surface takes
    away the entry with this event name and this function object. *)
Definition removeEventListener (l : Listener) (ls : list Listener)
  : list Listener :=
  filter (fun l' => l' <> l) ls.

(** Modelled from the spec: [./useEventListener] is imported by the hook
    and is not among the sources. Section 6 describes it as "an
    event-listener registration primitive": the call registers the
    listener on the global input surface. The source calls it as a
    statement, so whatever it returns is dropped. *)
Definition useEventListener (eventName : string) (handler : Closure)
  : M unit :=
  modify (with_surface (fun l => l ++ [(eventName, handler)])).

(** Modelled from the spec: "run cleanup on unmount/dependency-change"
    (section 6). The host runs the cleanup it holds for the effect, the
    one that the last run of the effect returned, and forgets it. *)
Definition run_cleanups : M unit :=
  modify (fun w => with_cleanups (fun _ => [])
                     (with_surface
                        (fun s => foldr removeEventListener s (cleanups w)) w)).

(** Modelled from the spec: React's [useEffect] is a capability of the
    host framework, "a component-lifecycle-bound effect-registration
    primitive (run setup on mount/dependency-change, run cleanup on
    unmount/dependency-change)" (section 6). Dependencies are compared by
    identity, position by position. The cleanup is what the function
    passed as [effect] returns; the host keeps it until the next run or
    the unmount. *)
Definition useEffect (effect : M (list Listener))
    (dependencies : RefId * CbId) : M unit :=
  w ← get;
  match deps w with
  | None =>
      cleanup ← effect;
      modify (with_cleanups (fun _ => cleanup)) ;;
      modify (with_deps (Some dependencies))
  | Some previous =>
      if decide (previous = dependencies) then mret tt
      else
        run_cleanups ;;
        cleanup ← effect;
        modify (with_cleanups (fun _ => cleanup)) ;;
        modify (with_deps (Some dependencies))
  end.

(** Evaluating the declaration [function handleClick(e) {...}] creates a
    function object with a new identity. *)
Definition declare_handleClick (elementRef : RefId) (callback : CbId)
  : M Closure :=
  fun w =>
    ({| fn_id := next_fn w; captured_elementRef := elementRef;
        captured_callback := callback |},
     with_next_fn (S (next_fn w)) w).

(** *** The hook of the source *)

(** The function passed to [useEffect]. Its body ends after the second
    registration without a [return]: the cleanup it hands to the host is
    the empty one. *)
Definition effect (elementRef : RefId) (callback : CbId)
  : M (list Listener) :=
  handleClick_fn ← declare_handleClick elementRef callback;
  useEventListener "mousedown" handleClick_fn ;;
  useEventListener "touchstart" handleClick_fn ;;
  mret [].

Definition useOnClickOutside (elementRef : RefId) (callback : CbId)
  : M unit :=
  useEffect (effect elementRef callback) (elementRef, callback).

(** Modelled from the spec: the consuming component is deactivated; the
    host runs the cleanup it holds for the effect (section 4.1,
    Teardown). *)
Definition unmount : M unit :=
  run_cleanups ;; modify (with_deps None).

(** *** Life of one consuming component *)

Inductive Action :=
| Render (elementRef : RefId) (callback : CbId)
    (* the component renders and calls the hook with these arguments *)
| Unmount
| Interact (e : Event)
    (* the host delivers an input event *)
| Mutate (f : Page -> Page).
    (* anything else: the framework assigns refs, the DOM changes, ... *)

Definition step (a : Action) : M unit :=
  match a with
  | Render elementRef callback => useOnClickOutside elementRef callback
  | Unmount => unmount
  | Interact e => dispatchEvent e ;; mret tt
  | Mutate f => modify (with_page f)
  end.

Fixpoint run (acts : list Action) : M unit :=
  match acts with
  | [] => mret tt
  | a :: rest => step a ;; run rest
  end.

(** The world after [m]. *)
Definition exec {A : Type} (m : M A) (w : World) : World := (m w).2.

(** Before the component is first rendered. *)
Definition initial (p : Page) : World :=
  {| page := p; surface := []; cleanups := []; deps := None;
     next_fn := 0; calls := [] |}.

(** *** Observations *)

(** Did running [m] from [w] invoke a callback: the record of calls grew. *)
Definition invoked {A : Type} (m : M A) (w : World) : bool :=
  bool_decide (length (calls w) < length (calls (exec m w))).

(** [w'] holds the subscriptions of [w]. *)
Definition same_subscriptions (w w' : World) : Prop :=
  surface w' = surface w /\ cleanups w' = cleanups w /\
  deps w' = deps w /\ next_fn w' = next_fn w.

(** The two listeners that one run of the effect owns. *)
Definition listeners_of (h : Closure) : list Listener :=
  [("mousedown"%string, h); ("touchstart"%string, h)].

(** The world after the callbacks [cs] ran one after the other. *)
Definition after_callbacks (cs : list CbId) (w : World) : World :=
  foldl (fun w' c => after_callback c w') w cs.

(** The listener state of a world reached by the component. [hs] are the
    [handleClick] function objects created so far, oldest first: each run
    of the effect has left its two listeners on the surface, the host
    holds no cleanup, and while the hook is active the youngest function
    object closes over the current dependencies. *)
Definition consistent_with (hs : list Closure) (w : World) : Prop :=
  cleanups w = [] /\
  surface w = flat_map listeners_of hs /\
  fn_id <$> hs = seq 0 (next_fn w) /\
  match deps w with
  | None => True
  | Some (elementRef, callback) =>
      exists h, last hs = Some h /\
                captured_elementRef h = elementRef /\
                captured_callback h = callback
  end.

Definition consistent (w : World) : Prop :=
  exists hs, consistent_with hs w.

End Runtime.

Arguments Page : clear implicits.
Arguments World : clear implicits.
Arguments M : clear implicits.
Arguments Action : clear implicits.

(** ** Observations on events and runs *)

Section Traces.

Context {U : Type}.

(** A press: an event of one of the two types the hook listens to. *)
Definition is_press (e : Event) : bool :=
  bool_decide (type e = "mousedown" \/ type e = "touchstart").

(** The event starts outside [cur]: there is no element, or no origin node,
    or the origin node is not among the nodes of the element's subtree. *)
Definition starts_outside (cur : option Node) (e : Event) : bool :=
  match cur, target e with
  | Some el, Some t => bool_decide (t ∉ subtree_ids el)
  | _, _ => true
  end.

(** The presses among [es], and those of them that start outside [cur]. *)
Definition presses (es : list Event) : list Event :=
  List.filter is_press es.

Definition outside_presses (cur : option Node) (es : list Event)
  : list Event :=
  List.filter (fun e => is_press e && starts_outside cur e) es.

(** The events that a run delivers, in order. *)
Definition events_of (acts : list (Action U)) : list Event :=
  flat_map (fun a => match a with Interact e => [e] | _ => [] end) acts.

(** The callbacks that the component passes to the hook during a run. *)
Definition rendered_callbacks (acts : list (Action U)) : list CbId :=
  flat_map (fun a => match a with Render _ c => [c] | _ => [] end) acts.

(** The [handleClick] function objects that a step creates: one when a
    render makes the effect run, none otherwise. *)
Definition new_closures (a : Action U) (w : World U) : list Closure :=
  match a with
  | Render elementRef callback =>
      if decide (deps w = Some (elementRef, callback)) then []
      else [{| fn_id := next_fn w; captured_elementRef := elementRef;
               captured_callback := callback |}]
  | _ => []
  end.

(** A run in which the component is never unmounted and passes the same
    ref and the same callback at every render. *)
Definition settled (elementRef : RefId) (callback : CbId)
    (acts : list (Action U)) : Prop :=
  Forall (fun a => match a with
                   | Render r c => (r, c) = (elementRef, callback)
                   | Unmount => False
                   | _ => True
                   end) acts.

(** The listener state of a component that has run the effect at most
    once, and then for [elementRef] and [callback]. *)
Definition subscribed_once (elementRef : RefId) (callback : CbId)
    (w : World U) : Prop :=
  (deps w = None /\ consistent_with [] w) \/
  (deps w = Some (elementRef, callback) /\
   consistent_with [{| fn_id := 0; captured_elementRef := elementRef;
                       captured_callback := callback |}] w).

End Traces.

(** ** The scenario of the specification

    "Element is a [<div>] containing a [<button>]": a click on the button
    is inside, a click elsewhere in the document is outside. The callback
    counts its invocations in the application state. *)

Module Scenario.

Definition button : Node := Element 2%positive [].
Definition div : Node := Element 1%positive [button].
Definition paragraph : Node := Element 3%positive [].
Definition body : Node := Element 10%positive [div; paragraph].

Definition count_calls (callback : CbId) (p : Page nat) : Page nat :=
  {| document := document p; refs := refs p; user := S (user p) |}.

(** A second application whose callbacks remember the last one called. *)
Definition remember_last (callback : CbId) (p : Page nat) : Page nat :=
  {| document := document p; refs := refs p;
     user := Pos.to_nat callback |}.

(** [elementRef.current = el], as the framework does when it mounts or
    unmounts the element. *)
Definition assign_ref (elementRef : RefId) (el : option Node)
    (p : Page nat) : Page nat :=
  {| document := document p; refs := <[elementRef := el]> (refs p);
     user := user p |}.

(** Before the element is mounted no ref has been assigned. *)
Definition unmounted_page : Page nat :=
  {| document := body; refs := ∅; user := 0 |}.

Definition mounted_page : Page nat :=
  assign_ref 1%positive (Some div) unmounted_page.

Definition mousedown_on (t : option NodeId) : Event :=
  {| type := "mousedown"; target := t |}.

Definition touchstart_on (t : option NodeId) : Event :=
  {| type := "touchstart"; target := t |}.

Definition handler : Closure :=
  {| fn_id := 0; captured_elementRef := 1%positive;
     captured_callback := 7%positive |}.

(** The component mounts its element and renders with ref 1, callback 7. *)
Definition mounting : list (Action nat) :=
  [Mutate (assign_ref 1%positive (Some div)); Render 1%positive 7%positive].

(** Then it renders again with another callback, 8, for the same ref. *)
Definition changing_callback : list (Action nat) :=
  mounting ++ [Render 1%positive 8%positive].

(** Or with another ref object, 2, for the same element and callback. *)
Definition changing_ref : list (Action nat) :=
  mounting ++ [Mutate (assign_ref 2%positive (Some div));
               Render 2%positive 7%positive].

End Scenario.

(** ** The component of the hook's documentation

<<
    const MyComponent: React.FC = () => {
      const ref = React.useRef<HTMLDivElement>(null);
      const handleClickOutside = () => {
        console.log('Clicked outside!');
      };
      useOnClickOutside(ref, handleClickOutside);
      return (
        <div ref={ref}>
          Click outside of this div to trigger the callback.
        </div>
      );
    };
>>
    The application state is the console. *)

Module DocExample.

Definition Console : Type := list string.

(** The object that [React.useRef] returns, the same at every render. *)
Definition ref : RefId := 1%positive.

(** The rendered [<div>] with its text node. *)
Definition the_div : Node := Element 1%positive [Element 2%positive []].

(** [console.log('Clicked outside!')], the body of every
    [handleClickOutside]. *)
Definition log_click (callback : CbId) (p : Page Console) : Page Console :=
  {| document := document p; refs := refs p;
     user := user p ++ ["Clicked outside!"%string] |}.

(** The arrow function is evaluated in the body of the component, so each
    render has a function object of its own: that of render [n]. *)
Definition handleClickOutside (n : nat) : CbId := Pos.of_succ_nat n.

(** The [handleClick] function object that the effect creates at render
    [n], when it is the effect's run number [n]. *)
Definition handler_of (n : nat) : Closure :=
  {| fn_id := n; captured_elementRef := ref;
     captured_callback := handleClickOutside n |}.

(** [ref={ref}]: committing the render leaves the div in [ref.current]. *)
Definition attach (p : Page Console) : Page Console :=
  {| document := document p; refs := <[ref := Some the_div]> (refs p);
     user := user p |}.

(** Render [n] of the component: the commit, then the hook's effect. *)
Definition render (n : nat) : list (Action Console) :=
  [Mutate attach; Render ref (handleClickOutside n)].

(** The first [k] renders. *)
Definition renders (k : nat) : list (Action Console) :=
  flat_map render (seq 0 k).

(** The page before the component is first rendered: [useRef(null)]. *)
Definition blank : Page Console :=
  {| document := Element 10%positive [the_div; Element 3%positive []];
     refs := ∅; user := [] |}.

End DocExample.

(** * Properties *)

(** ** Containment *)

Section DomFacts.

(** Structural induction on a subtree, with the hypothesis available for
    every child. *)
Lemma Node_subtree_ind (P : Node -> Prop) :
  (forall i kids, Forall P kids -> P (Element i kids)) ->
  forall n, P n.
Proof.
  intros IHstep.
  fix IH 1. intros [i kids]. apply IHstep.
  induction kids as [|k kids IHkids]; constructor; [apply IH | exact IHkids].
Qed.

Lemma has_inclusive_descendant_self (el : Node) :
  has_inclusive_descendant (nodeId el) el = true.
Proof.
  destruct el as [i kids]; simpl.
  rewrite bool_decide_eq_true_2; done.
Qed.

Lemma has_inclusive_descendant_child t i kids k :
  k ∈ kids ->
  has_inclusive_descendant t k = true ->
  has_inclusive_descendant t (Element i kids) = true.
Proof.
  intros Hin Hk; simpl.
  apply orb_true_iff; right.
  apply existsb_exists. exists k; split; [by apply list_elem_of_In | done].
Qed.

Lemma descendant_found t el :
  descendant t el -> has_inclusive_descendant t el = true.
Proof.
  induction 1 as [i kids k Hin Hid | i kids k Hin _ IH].
  - apply (has_inclusive_descendant_child t i kids k Hin).
    subst t. apply has_inclusive_descendant_self.
  - by apply (has_inclusive_descendant_child t i kids k Hin).
Qed.

Lemma found_inside t el :
  has_inclusive_descendant t el = true -> inside t el.
Proof.
  induction el as [i kids IH] using Node_subtree_ind; simpl.
  intros [Heq | Hex]%orb_true_iff.
  - left. apply bool_decide_eq_true_1 in Heq. by simpl.
  - right. apply existsb_exists in Hex as (k & Hin & Hk).
    apply list_elem_of_In in Hin.
    rewrite Forall_forall in IH.
    destruct (IH k Hin Hk) as [-> | Hd].
    + by apply (desc_child _ i kids k).
    + by apply (desc_below _ i kids k).
Qed.

(** The search decides the relation. *)
Lemma has_inclusive_descendant_spec t el :
  has_inclusive_descendant t el = true <-> inside t el.
Proof.
  split; [apply found_inside |].
  intros [-> | Hd]; [apply has_inclusive_descendant_self |].
  by apply descendant_found.
Qed.

Lemma contains_inside el t : contains el (Some t) = true <-> inside t el.
Proof. apply has_inclusive_descendant_spec. Qed.

Lemma contains_outside el t :
  t <> nodeId el -> ~ descendant t el -> contains el (Some t) = false.
Proof.
  intros Hne Hnd. apply not_true_is_false.
  intros [? | ?]%contains_inside; tauto.
Qed.

Lemma not_inside_by_search t el :
  has_inclusive_descendant t el = false -> ~ inside t el.
Proof.
  intros Hno Hin%has_inclusive_descendant_spec. congruence.
Qed.

Lemma not_descendant_by_search t el :
  has_inclusive_descendant t el = false -> ~ descendant t el.
Proof.
  intros Hno Hd. apply (not_inside_by_search t el Hno). by right.
Qed.

Lemma contains_null el : contains el None = false.
Proof. reflexivity. Qed.

(** The identities below a node are the nodes inside it. *)
Lemma subtree_ids_inside t el : t ∈ subtree_ids el <-> inside t el.
Proof.
  rewrite <- has_inclusive_descendant_spec.
  induction el as [i kids IH] using Node_subtree_ind; simpl.
  rewrite elem_of_cons, orb_true_iff, bool_decide_eq_true.
  rewrite existsb_exists, list_elem_of_In, in_flat_map.
  rewrite Forall_forall in IH.
  split; (intros [-> | (k & Hin & Hk)]; [by left | right]);
    exists k; (split; [done |]);
    apply list_elem_of_In in Hin;
    [apply IH; [done | by apply list_elem_of_In]
    | apply list_elem_of_In, IH; done].
Qed.

End DomFacts.

(** ** The handler *)

Section HandlerFacts.

Context {U : Type} (cb_body : CbId -> Page U -> Page U).

Implicit Types (w : World U) (e : Event) (h : Closure).

Lemma handleClick_absent elementRef callback e w :
  current elementRef (page w) = None ->
  handleClick cb_body elementRef callback e w
  = (e, after_callback cb_body callback w).
Proof.
  intros Hcur. unfold handleClick, mbind, M_bind, read_current.
  rewrite Hcur. reflexivity.
Qed.

Lemma handleClick_present elementRef callback e w el :
  current elementRef (page w) = Some el ->
  handleClick cb_body elementRef callback e w
  = if contains el (target e) then (e, w)
    else (e, after_callback cb_body callback w).
Proof.
  intros Hcur. unfold handleClick, mbind, M_bind, read_current.
  rewrite Hcur. simpl. by destruct (contains el (target e)).
Qed.

(** Whatever the handler decides, it hands the event back as it got it and
    the world is either untouched or the one the callback leaves. *)
Lemma handleClick_cases elementRef callback e w :
  handleClick cb_body elementRef callback e w = (e, w) \/
  handleClick cb_body elementRef callback e w
  = (e, after_callback cb_body callback w).
Proof.
  destruct (current elementRef (page w)) as [el|] eqn:Hcur.
  - rewrite (handleClick_present _ _ _ _ el Hcur).
    destruct (contains el (target e)); auto.
  - right. by apply handleClick_absent.
Qed.

Lemma invoked_after_callback {A} (m : M U A) callback w :
  exec m w = after_callback cb_body callback w -> invoked m w = true.
Proof.
  intros Hm. unfold invoked. rewrite Hm. simpl.
  apply bool_decide_eq_true_2. rewrite length_app. simpl. lia.
Qed.

Lemma invoked_unchanged {A} (m : M U A) w :
  exec m w = w -> invoked m w = false.
Proof.
  intros Hm. unfold invoked. rewrite Hm.
  apply bool_decide_eq_false_2. lia.
Qed.

(** C1: for a registered handler (a function object closing over
    [elementRef] and [callback]) and an event whose origin node [t] is
    neither the element that [elementRef] currently refers to nor a
    descendant of it, the handler invokes [callback]: the callback's body
    runs once on the page, with no argument, and one call is recorded.
    The statement covers events of every type, mousedown and touchstart
    among them. *)
Theorem handler_invokes_callback_outside h e w el t :
  current (captured_elementRef h) (page w) = Some el ->
  target e = Some t ->
  t <> nodeId el ->
  ~ descendant t el ->
  exec (call cb_body h e) w = after_callback cb_body (captured_callback h) w /\
  page (exec (call cb_body h e) w) = cb_body (captured_callback h) (page w) /\
  calls (exec (call cb_body h e) w) = calls w ++ [captured_callback h] /\
  invoked (call cb_body h e) w = true.
Proof.
  intros Hcur Ht Hne Hnd.
  assert (Hrun : exec (call cb_body h e) w
                 = after_callback cb_body (captured_callback h) w).
  { unfold exec, call. rewrite (handleClick_present _ _ _ _ el Hcur), Ht.
    by rewrite contains_outside. }
  split; [exact Hrun |]. rewrite Hrun.
  repeat split. by apply (invoked_after_callback _ (captured_callback h)).
Qed.

(** C2: for an event whose origin node is inside the subtree of the
    referenced element (the element itself included) the handler does not
    invoke the callback: nothing is recorded and the world is as before. *)
Theorem handler_silent_inside h e w el t :
  current (captured_elementRef h) (page w) = Some el ->
  target e = Some t ->
  inside t el ->
  call cb_body h e w = (e, w) /\
  calls (exec (call cb_body h e) w) = calls w /\
  invoked (call cb_body h e) w = false.
Proof.
  intros Hcur Ht Hin.
  assert (Hrun : call cb_body h e w = (e, w)).
  { unfold call. rewrite (handleClick_present _ _ _ _ el Hcur), Ht.
    apply contains_inside in Hin. by rewrite Hin. }
  split; [exact Hrun |]. unfold invoked, exec. rewrite Hrun. simpl.
  split; [done |]. apply bool_decide_eq_false_2. lia.
Qed.

(** C3: while [elementRef.current] is absent, every event makes the
    handler invoke the callback, whatever the origin node is (also when
    there is none). *)
Theorem handler_invokes_callback_when_ref_absent h e w :
  current (captured_elementRef h) (page w) = None ->
  exec (call cb_body h e) w = after_callback cb_body (captured_callback h) w /\
  calls (exec (call cb_body h e) w) = calls w ++ [captured_callback h] /\
  invoked (call cb_body h e) w = true.
Proof.
  intros Hcur.
  assert (Hrun : exec (call cb_body h e) w
                 = after_callback cb_body (captured_callback h) w).
  { unfold exec, call. by rewrite (handleClick_absent _ _ _ _ Hcur). }
  split; [exact Hrun |]. rewrite Hrun.
  split; [done |]. by apply (invoked_after_callback _ (captured_callback h)).
Qed.

(** C9: an event without origin node ([target] is [null]) fails the
    containment test of a present element, and the callback is invoked. *)
Theorem handler_null_target_is_outside h e w el :
  current (captured_elementRef h) (page w) = Some el ->
  target e = None ->
  contains el (target e) = false /\
  calls (exec (call cb_body h e) w) = calls w ++ [captured_callback h] /\
  invoked (call cb_body h e) w = true.
Proof.
  intros Hcur Ht. rewrite Ht. split; [done |].
  assert (Hrun : exec (call cb_body h e) w
                 = after_callback cb_body (captured_callback h) w).
  { unfold exec, call. by rewrite (handleClick_present _ _ _ _ el Hcur), Ht. }
  rewrite Hrun. split; [done |]. by apply (invoked_after_callback _ (captured_callback h)).
Qed.

End HandlerFacts.

(** C10: the decision to invoke is a function of [elementRef.current] (the
    element with its subtree) and of the event's target alone. Two runs of
    the handler that agree on these two make the same decision, whatever
    else differs: the ref object, the callback and its behaviour, the type of
    the event, the rest of the page and of the world. *)
Theorem decision_depends_on_current_and_target
    {U : Type} (body1 body2 : CbId -> Page U -> Page U)
    (h1 h2 : Closure) (e1 e2 : Event) (w1 w2 : World U) :
  current (captured_elementRef h1) (page w1)
  = current (captured_elementRef h2) (page w2) ->
  target e1 = target e2 ->
  invoked (call body1 h1 e1) w1 = invoked (call body2 h2 e2) w2.
Proof.
  intros Hcur Ht.
  destruct (current (captured_elementRef h2) (page w2)) as [el|] eqn:Hc2.
  - unfold invoked, exec, call.
    rewrite (handleClick_present body1 _ _ _ _ el Hcur).
    rewrite (handleClick_present body2 _ _ _ _ el Hc2).
    rewrite Ht. destruct (contains el (target e2)); simpl.
    + rewrite !bool_decide_eq_false_2; [done | lia | lia].
    + rewrite !length_app; simpl.
      rewrite !bool_decide_eq_true_2; [done | lia | lia].
  - unfold invoked, exec, call.
    rewrite (handleClick_absent body1 _ _ _ _ Hcur).
    rewrite (handleClick_absent body2 _ _ _ _ Hc2). simpl.
    rewrite !length_app; simpl.
    rewrite !bool_decide_eq_true_2; [done | lia | lia].
Qed.

(** ** Listener life cycle *)

Section LifecycleFacts.

Context {U : Type} (cb_body : CbId -> Page U -> Page U).

Implicit Types (w : World U) (e : Event) (h : Closure) (p : Page U).

Lemma same_subscriptions_refl w : same_subscriptions w w.
Proof. by repeat split. Qed.

Lemma same_subscriptions_trans w1 w2 w3 :
  same_subscriptions w1 w2 -> same_subscriptions w2 w3 ->
  same_subscriptions w1 w3.
Proof.
  intros (? & ? & ? & ?) (? & ? & ? & ?).
  repeat split; congruence.
Qed.

Lemma same_subscriptions_after_callback callback w :
  same_subscriptions w (after_callback cb_body callback w).
Proof. by repeat split. Qed.

Lemma call_event h e w : (call cb_body h e w).1 = e.
Proof.
  unfold call.
  by destruct (handleClick_cases cb_body (captured_elementRef h)
                 (captured_callback h) e w) as [-> | ->].
Qed.

Lemma call_subscriptions h e w :
  same_subscriptions w (exec (call cb_body h e) w).
Proof.
  unfold exec, call.
  destruct (handleClick_cases cb_body (captured_elementRef h)
              (captured_callback h) e w) as [-> | ->]; simpl.
  - apply same_subscriptions_refl.
  - apply same_subscriptions_after_callback.
Qed.

Lemma deliver_cons h hs e w :
  deliver cb_body (h :: hs) e w
  = deliver cb_body hs (call cb_body h e w).1 (call cb_body h e w).2.
Proof.
  simpl. unfold mbind, M_bind. by destruct (call cb_body h e w).
Qed.

Lemma deliver_event hs e w : (deliver cb_body hs e w).1 = e.
Proof.
  revert e w. induction hs as [|h hs IH]; intros e w; [done |].
  rewrite deliver_cons, IH. apply call_event.
Qed.

Lemma deliver_subscriptions hs e w :
  same_subscriptions w (exec (deliver cb_body hs e) w).
Proof.
  revert e w. induction hs as [|h hs IH]; intros e w.
  - apply same_subscriptions_refl.
  - unfold exec. rewrite deliver_cons.
    eapply same_subscriptions_trans; [apply (call_subscriptions h e) |].
    apply IH.
Qed.

Lemma dispatchEvent_unfold e w :
  dispatchEvent cb_body e w
  = deliver cb_body (listeners_for (type e) (surface w)) e w.
Proof. reflexivity. Qed.

Lemma dispatchEvent_subscriptions e w :
  same_subscriptions w (exec (dispatchEvent cb_body e) w).
Proof. unfold exec. rewrite dispatchEvent_unfold. apply deliver_subscriptions. Qed.

Lemma exec_bind {A B} (m : M U A) (f : A -> M U B) w :
  exec (m ≫= f) w = exec (f (m w).1) (m w).2.
Proof. unfold exec, mbind, M_bind. by destruct (m w). Qed.

Lemma World_eq w1 w2 :
  page w1 = page w2 -> surface w1 = surface w2 -> cleanups w1 = cleanups w2 ->
  deps w1 = deps w2 -> next_fn w1 = next_fn w2 -> calls w1 = calls w2 ->
  w1 = w2.
Proof. destruct w1, w2; simpl. by intros -> -> -> -> -> ->. Qed.

(** *** The callbacks that a delivery runs *)

Lemma calls_after_callbacks cs w :
  calls (after_callbacks cb_body cs w) = calls w ++ cs.
Proof.
  revert w. induction cs as [|c cs IH]; intros w; simpl.
  - by rewrite app_nil_r.
  - rewrite IH. simpl. by rewrite <- app_assoc.
Qed.

Lemma exec_deliver_cons h hs e w :
  exec (deliver cb_body (h :: hs) e) w
  = exec (deliver cb_body hs e) (exec (call cb_body h e) w).
Proof. unfold exec. by rewrite deliver_cons, call_event. Qed.

Lemma exec_call_cases h e w :
  exec (call cb_body h e) w = w \/
  exec (call cb_body h e) w = after_callback cb_body (captured_callback h) w.
Proof.
  unfold exec, call.
  destruct (handleClick_cases cb_body (captured_elementRef h)
              (captured_callback h) e w) as [-> | ->]; auto.
Qed.

Lemma deliver_after_callbacks hs e w :
  exists cs,
    exec (deliver cb_body hs e) w = after_callbacks cb_body cs w /\
    length cs <= length hs /\
    Forall (fun c => exists h, h ∈ hs /\ captured_callback h = c) cs.
Proof.
  revert w. induction hs as [|h hs IH]; intros w.
  { exists []. by repeat split. }
  rewrite exec_deliver_cons.
  destruct (IH (exec (call cb_body h e) w)) as (cs & Hrun & Hlen & Hcs).
  assert (Hweaken :
    Forall (fun c => exists h', h' ∈ h :: hs /\ captured_callback h' = c) cs).
  { eapply Forall_impl; [exact Hcs |].
    intros c (h' & Hin & Hc). exists h'. split; [by right | done]. }
  rewrite Hrun.
  destruct (exec_call_cases h e w) as [-> | ->].
  - exists cs. split; [done |]. split; [simpl; lia | done].
  - exists (captured_callback h :: cs). split; [done |].
    split; [simpl; lia |].
    constructor; [| done]. exists h. split; [by left | done].
Qed.

(** *** The effect and the hook, case by case *)

(** The world after the effect ran in [w], and the cleanup it returns. *)
Lemma effect_world elementRef callback w :
  let h := {| fn_id := next_fn w; captured_elementRef := elementRef;
              captured_callback := callback |} in
  let w' := exec (effect elementRef callback) w in
  (effect elementRef callback w).1 = [] /\
  page w' = page w /\ calls w' = calls w /\ deps w' = deps w /\
  cleanups w' = cleanups w /\
  next_fn w' = S (next_fn w) /\
  surface w' = surface w ++ listeners_of h.
Proof.
  simpl. unfold listeners_of.
  repeat split; simpl; by rewrite <- app_assoc.
Qed.

Lemma useOnClickOutside_same elementRef callback w :
  deps w = Some (elementRef, callback) ->
  useOnClickOutside elementRef callback w = (tt, w).
Proof.
  intros Hd. unfold useOnClickOutside, useEffect, mbind, M_bind. simpl.
  rewrite Hd. by rewrite decide_True.
Qed.

Lemma run_cleanups_none w : cleanups w = [] -> exec run_cleanups w = w.
Proof.
  intros Hc. apply World_eq; try done; simpl; by rewrite Hc.
Qed.

(** A render that makes the effect run, in a world in which the host holds
    no cleanup: nothing is removed and two listeners are added. *)
Lemma useOnClickOutside_runs elementRef callback w :
  cleanups w = [] ->
  deps w <> Some (elementRef, callback) ->
  let h := {| fn_id := next_fn w; captured_elementRef := elementRef;
              captured_callback := callback |} in
  let w' := exec (useOnClickOutside elementRef callback) w in
  page w' = page w /\ calls w' = calls w /\ cleanups w' = [] /\
  deps w' = Some (elementRef, callback) /\
  next_fn w' = S (next_fn w) /\
  surface w' = surface w ++ listeners_of h.
Proof.
  intros Hc Hne h w'. subst w'.
  unfold useOnClickOutside, useEffect. rewrite exec_bind. simpl.
  destruct (deps w) as [previous|] eqn:Hd.
  - rewrite decide_False by congruence.
    unfold listeners_of.
    repeat split; simpl; rewrite ?Hc; simpl; by rewrite <- ?app_assoc.
  - unfold listeners_of. repeat split; simpl; by rewrite <- ?app_assoc.
Qed.

(** What a call of the hook leaves alone, whichever way it goes. *)
Lemma useOnClickOutside_world elementRef callback w :
  deps (exec (useOnClickOutside elementRef callback) w)
  = Some (elementRef, callback) /\
  calls (exec (useOnClickOutside elementRef callback) w) = calls w /\
  page (exec (useOnClickOutside elementRef callback) w) = page w.
Proof.
  destruct (deps w) as [previous|] eqn:Hd.
  - destruct (decide (previous = (elementRef, callback))) as [-> | Hne].
    + unfold exec. by rewrite useOnClickOutside_same.
    + unfold useOnClickOutside, useEffect. rewrite exec_bind. simpl.
      rewrite Hd. by rewrite decide_False.
  - unfold useOnClickOutside, useEffect. rewrite exec_bind. simpl.
    by rewrite Hd.
Qed.

End LifecycleFacts.

(** ** The invariant of the listener state *)

Section InvariantFacts.

Context {U : Type} (cb_body : CbId -> Page U -> Page U).

Implicit Types (w : World U) (e : Event) (h : Closure) (p : Page U).
Implicit Types (hs : list Closure).

Lemma run_cons a acts w :
  exec (run cb_body (a :: acts)) w
  = exec (run cb_body acts) (exec (step cb_body a) w).
Proof. simpl. by rewrite exec_bind. Qed.

Lemma run_app acts1 acts2 w :
  exec (run cb_body (acts1 ++ acts2)) w
  = exec (run cb_body acts2) (exec (run cb_body acts1) w).
Proof.
  revert w. induction acts1 as [|a acts1 IH]; intros w; [done |].
  rewrite <- app_comm_cons, !run_cons. apply IH.
Qed.

Lemma step_interact e w :
  exec (step cb_body (Interact e)) w = exec (dispatchEvent cb_body e) w.
Proof. simpl. by rewrite exec_bind. Qed.

Lemma consistent_with_initial p : consistent_with [] (initial p).
Proof. by repeat split. Qed.

Lemma consistent_with_same_subscriptions hs w w' :
  same_subscriptions w w' -> consistent_with hs w -> consistent_with hs w'.
Proof.
  intros (Hs & Hc & Hd & Hn) Hw. unfold consistent_with.
  by rewrite Hs, Hc, Hd, Hn.
Qed.

Lemma flat_map_listeners_snoc hs h :
  flat_map listeners_of (hs ++ [h]) = flat_map listeners_of hs ++ listeners_of h.
Proof. rewrite flat_map_app. reflexivity. Qed.

(** Each step keeps the listeners that are there and adds those of the
    function objects it creates. *)
Lemma step_consistent_with a hs w :
  consistent_with hs w ->
  consistent_with (hs ++ new_closures a w) (exec (step cb_body a) w).
Proof.
  intros Hw. destruct a as [elementRef callback | | e | f]; simpl new_closures.
  - destruct (decide (deps w = Some (elementRef, callback))) as [Hd | Hne].
    + rewrite app_nil_r. simpl. unfold exec.
      by rewrite useOnClickOutside_same.
    + destruct Hw as (Hc & Hs & Hf & _).
      destruct (useOnClickOutside_runs elementRef callback w Hc Hne)
        as (_ & _ & Hc' & Hd' & Hn' & Hs').
      change (step cb_body (Render elementRef callback))
        with (useOnClickOutside (U:=U) elementRef callback).
      unfold consistent_with.
      rewrite Hc', Hs', Hd', Hn', Hs, flat_map_listeners_snoc.
      split; [done |]. split; [done |].
      split; [by rewrite fmap_app, Hf, seq_S |].
      eexists. split; [apply last_snoc | done].
  - rewrite app_nil_r. destruct Hw as (Hc & Hs & Hf & _).
    repeat split; simpl; by rewrite ?Hc.
  - rewrite app_nil_r, step_interact.
    eapply consistent_with_same_subscriptions; [| exact Hw].
    apply dispatchEvent_subscriptions.
  - rewrite app_nil_r. exact Hw.
Qed.

Lemma run_consistent_with acts hs w :
  consistent_with hs w ->
  exists hs', consistent_with (hs ++ hs') (exec (run cb_body acts) w).
Proof.
  revert hs w. induction acts as [|a acts IH]; intros hs w Hw.
  - exists []. by rewrite app_nil_r.
  - rewrite run_cons.
    destruct (IH _ _ (step_consistent_with a hs w Hw)) as (hs' & Hw').
    exists (new_closures a w ++ hs'). by rewrite app_assoc.
Qed.

(** Every world the component reaches is consistent. *)
Lemma reachable_consistent p acts :
  consistent (exec (run cb_body acts) (initial p)).
Proof.
  destruct (run_consistent_with acts [] (initial p) (consistent_with_initial p))
    as (hs & Hw).
  by exists hs.
Qed.

(** *** Delivery in a consistent world *)

Lemma listeners_for_listeners_of eventName h :
  listeners_for eventName (listeners_of h)
  = if bool_decide (eventName = "mousedown" \/ eventName = "touchstart")
    then [h] else [].
Proof.
  unfold listeners_for, listeners_of.
  destruct (decide (eventName = "mousedown")) as [-> | Hm]; [done |].
  destruct (decide (eventName = "touchstart")) as [-> | Ht]; [done |].
  rewrite bool_decide_eq_false_2 by tauto.
  rewrite !filter_cons_False by (simpl; congruence). done.
Qed.

Lemma listeners_for_app eventName (ls1 ls2 : list Listener) :
  listeners_for eventName (ls1 ++ ls2)
  = listeners_for eventName ls1 ++ listeners_for eventName ls2.
Proof. unfold listeners_for. by rewrite filter_app, fmap_app. Qed.

(** A press reaches every function object created so far, oldest first;
    any other event reaches none. *)
Lemma listeners_for_flat_map eventName hs :
  listeners_for eventName (flat_map listeners_of hs)
  = if bool_decide (eventName = "mousedown" \/ eventName = "touchstart")
    then hs else [].
Proof.
  induction hs as [|h hs IH].
  - simpl. by case_bool_decide.
  - change (flat_map listeners_of (h :: hs))
      with (listeners_of h ++ flat_map listeners_of hs).
    rewrite listeners_for_app, IH, listeners_for_listeners_of.
    by case_bool_decide.
Qed.

Lemma dispatchEvent_consistent hs w e :
  consistent_with hs w ->
  dispatchEvent cb_body e w
  = if is_press e then deliver cb_body hs e w else (e, w).
Proof.
  intros (_ & Hs & _). rewrite dispatchEvent_unfold, Hs.
  rewrite listeners_for_flat_map. unfold is_press.
  by case_bool_decide.
Qed.

Lemma dispatchEvent_detached w e :
  surface w = [] -> dispatchEvent cb_body e w = (e, w).
Proof. intros Hs. by rewrite dispatchEvent_unfold, Hs. Qed.

(** The guard of the source, told through the nodes of the subtree. *)
Lemma guard_starts_outside (cur : option Node) e :
  Js.not (Js.optional_call cur (fun el => contains el (target e)))
  = starts_outside cur e.
Proof.
  unfold starts_outside. destruct cur as [el|]; [| done].
  destruct (target e) as [t|]; simpl; [| done].
  destruct (has_inclusive_descendant t el) eqn:Hs; simpl.
  - rewrite bool_decide_eq_false_2; [done |].
    intros Hno. apply Hno, subtree_ids_inside.
    by apply has_inclusive_descendant_spec.
  - rewrite bool_decide_eq_true_2; [done |].
    intros Hin%subtree_ids_inside%has_inclusive_descendant_spec. congruence.
Qed.

Lemma handleClick_guard elementRef callback e w :
  handleClick cb_body elementRef callback e w
  = (e, if starts_outside (current elementRef (page w)) e
        then after_callback cb_body callback w else w).
Proof.
  rewrite <- guard_starts_outside.
  destruct (current elementRef (page w)) as [el|] eqn:Hcur.
  - rewrite (handleClick_present _ _ _ _ _ el Hcur). simpl.
    by destruct (contains el (target e)).
  - by rewrite (handleClick_absent _ _ _ _ _ Hcur).
Qed.

Lemma invoked_call h e w :
  invoked (call cb_body h e) w
  = starts_outside (current (captured_elementRef h) (page w)) e.
Proof.
  unfold invoked, exec, call. rewrite handleClick_guard. simpl.
  destruct (starts_outside _ e); simpl.
  - rewrite length_app. simpl. apply bool_decide_eq_true_2. lia.
  - apply bool_decide_eq_false_2. lia.
Qed.

(** Delivery while one function object is subscribed. *)
Lemma exec_dispatchEvent_single h w e :
  consistent_with [h] w ->
  exec (dispatchEvent cb_body e) w
  = if is_press e &&
       starts_outside (current (captured_elementRef h) (page w)) e
    then after_callback cb_body (captured_callback h) w else w.
Proof.
  intros Hw. unfold exec. rewrite (dispatchEvent_consistent [h] w e Hw).
  destruct (is_press e); [| done].
  rewrite deliver_cons. unfold call. rewrite handleClick_guard. simpl.
  by destruct (starts_outside _ e).
Qed.

End InvariantFacts.

(** ** The hook over the life of a component *)

Section HookFacts.

Context {U : Type} (cb_body : CbId -> Page U -> Page U).

Implicit Types (w : World U) (e : Event) (h : Closure) (p : Page U).

(** C7: activating the hook in an unmounted component registers exactly
    two listeners on the global input surface, the first for mousedown and
    the second for touchstart; both are the same function object, whose
    call is [handleClick] for the hook's arguments. Nothing else on the
    surface changes, and from the initial world they are the only two. *)
Theorem activation_registers_two_listeners w elementRef callback :
  deps w = None ->
  let h := {| fn_id := next_fn w; captured_elementRef := elementRef;
              captured_callback := callback |} in
  let w' := exec (useOnClickOutside elementRef callback) w in
  surface w' = surface w ++ [("mousedown"%string, h); ("touchstart"%string, h)] /\
  length (surface w') = length (surface w) + 2 /\
  (forall e, call cb_body h e = handleClick cb_body elementRef callback e) /\
  (surface w = [] ->
   surface w' = [("mousedown"%string, h); ("touchstart"%string, h)]).
Proof.
  intros Hd h w'.
  assert (Hs : surface w' = surface w ++ listeners_of h).
  { subst w'. unfold useOnClickOutside, useEffect. rewrite exec_bind.
    simpl. rewrite Hd. simpl. unfold listeners_of. by rewrite <- app_assoc. }
  split; [exact Hs |]. rewrite Hs.
  split; [rewrite length_app; simpl; lia |].
  split; [done |]. by intros ->.
Qed.

(** C8: the hook and its handler touch nothing but the listener
    registrations. Processing an event hands the event object back as it
    was and leaves the subscriptions as they were; the world is then
    exactly what the callbacks that ran made of it, one after the other
    (page, document tree and refs are as before when none ran), and each
    of them is the callback of a listener on the surface. Calling the hook
    leaves the page and the record of calls alone and returns nothing. *)
Theorem hook_touches_only_subscriptions :
  (forall h e w,
      (call cb_body h e w).1 = e /\
      same_subscriptions w (exec (call cb_body h e) w) /\
      (exec (call cb_body h e) w = w \/
       exec (call cb_body h e) w
       = after_callback cb_body (captured_callback h) w)) /\
  (forall e w,
      (dispatchEvent cb_body e w).1 = e /\
      same_subscriptions w (exec (dispatchEvent cb_body e) w)) /\
  (forall e w,
      exists cs,
        exec (dispatchEvent cb_body e) w = after_callbacks cb_body cs w /\
        Forall (fun c => exists l, l ∈ surface w /\
                                   captured_callback l.2 = c) cs) /\
  (forall elementRef callback w,
      (useOnClickOutside elementRef callback w).1 = tt /\
      page (exec (useOnClickOutside elementRef callback) w) = page w /\
      calls (exec (useOnClickOutside elementRef callback) w) = calls w).
Proof.
  split; [| split; [| split]].
  - intros h e w. split; [apply call_event |].
    split; [apply call_subscriptions |].
    apply exec_call_cases.
  - intros e w. split; [| apply dispatchEvent_subscriptions].
    rewrite dispatchEvent_unfold. apply deliver_event.
  - intros e w. unfold exec. rewrite dispatchEvent_unfold.
    destruct (deliver_after_callbacks cb_body
                (listeners_for (type e) (surface w)) e w)
      as (cs & Hrun & _ & Hcs).
    exists cs. split; [exact Hrun |].
    eapply Forall_impl; [exact Hcs |].
    intros c (h & Hin & Hc). unfold listeners_for in Hin.
    apply list_elem_of_fmap in Hin as (l & -> & Hl).
    apply list_elem_of_filter in Hl as [_ Hl].
    by exists l.
  - intros elementRef callback w.
    split; [by destruct (useOnClickOutside elementRef callback w).1 |].
    destruct (useOnClickOutside_world elementRef callback w) as (_ & ? & ?).
    done.
Qed.

End HookFacts.

(** ** The effect returns no cleanup

    The function passed to [useEffect] registers two listeners and ends
    without a [return]; the host is handed nothing it could run when the
    dependencies change or the component unmounts. The three statements
    below run the hook at the scenario. *)

Section MissingCleanup.

Import Scenario.




End MissingCleanup.

(** ** The scenario, checked on the code *)

Section ScenarioChecks.

Import Scenario.

Example click_on_button_is_silent :
  calls (exec (run count_calls
                 (mounting ++ [Interact (mousedown_on (Some 2%positive))]))
           (initial unmounted_page)) = [].
Proof. vm_compute. reflexivity. Qed.

Example click_elsewhere_fires_once :
  calls (exec (run count_calls
                 (mounting ++ [Interact (mousedown_on (Some 3%positive))]))
           (initial unmounted_page)) = [7%positive].
Proof. vm_compute. reflexivity. Qed.

Example interaction_before_mount_fires :
  calls (exec (run count_calls
                 [Render 1%positive 7%positive; Interact (touchstart_on (Some 2%positive))])
           (initial unmounted_page)) = [7%positive].
Proof. vm_compute. reflexivity. Qed.

Example other_events_are_ignored :
  calls (exec (run count_calls
                 (mounting ++ [Interact {| type := "click";
                                           target := Some 3%positive |}]))
           (initial unmounted_page)) = [].
Proof. vm_compute. reflexivity. Qed.

End ScenarioChecks.

(** ** The claims at the scenario *)

Section Witnesses.

Import Scenario.

(** A mousedown on the paragraph, outside the div. *)
Lemma handler_invokes_callback_outside_witness :
  current 1%positive mounted_page = Some div /\
  ~ descendant 3%positive div /\
  calls (exec (call count_calls handler (mousedown_on (Some 3%positive)))
           (initial mounted_page)) = [7%positive].
Proof.
  assert (Hcur : current (captured_elementRef handler)
                   (page (initial mounted_page)) = Some div)
    by reflexivity.
  assert (Hnd : ~ descendant 3%positive div)
    by (apply not_descendant_by_search; reflexivity).
  split; [exact Hcur |]. split; [exact Hnd |].
  apply (handler_invokes_callback_outside count_calls handler
           (mousedown_on (Some 3%positive)) (initial mounted_page)
           div 3%positive Hcur eq_refl).
  - discriminate.
  - exact Hnd.
Defined.

(** A touchstart on the button, inside the div. *)
Lemma handler_silent_inside_witness :
  inside 2%positive div /\
  calls (exec (call count_calls handler (touchstart_on (Some 2%positive)))
           (initial mounted_page)) = [].
Proof.
  assert (Hin : inside 2%positive div)
    by (apply has_inclusive_descendant_spec; reflexivity).
  split; [exact Hin |].
  apply (handler_silent_inside count_calls handler
           (touchstart_on (Some 2%positive)) (initial mounted_page)
           div 2%positive); [reflexivity | reflexivity | exact Hin].
Defined.

(** Before the element is mounted, even a press on the button fires. *)
Lemma handler_invokes_callback_when_ref_absent_witness :
  current 1%positive unmounted_page = None /\
  calls (exec (call count_calls handler (mousedown_on (Some 2%positive)))
           (initial unmounted_page)) = [7%positive].
Proof.
  split; [reflexivity |].
  apply (handler_invokes_callback_when_ref_absent count_calls handler
           (mousedown_on (Some 2%positive)) (initial unmounted_page)).
  reflexivity.
Defined.

Lemma handler_null_target_is_outside_witness :
  target (mousedown_on None) = None /\
  calls (exec (call count_calls handler (mousedown_on None))
           (initial mounted_page)) = [7%positive].
Proof.
  split; [reflexivity |].
  apply (handler_null_target_is_outside count_calls handler
           (mousedown_on None) (initial mounted_page) div);
    reflexivity.
Defined.

(** Two applications, two callbacks, a mousedown and a touchstart, the ref
    assigned under two names: the same element and the same target. *)
Lemma decision_depends_on_current_and_target_witness :
  invoked (call count_calls handler (mousedown_on (Some 3%positive)))
    (initial mounted_page)
  = invoked (call remember_last
               {| fn_id := 4; captured_elementRef := 5%positive;
                  captured_callback := 9%positive |}
               (touchstart_on (Some 3%positive)))
      (exec (run remember_last [Render 5%positive 9%positive])
         (initial (assign_ref 5%positive (Some div) unmounted_page))).
Proof.
  apply (decision_depends_on_current_and_target count_calls remember_last);
    reflexivity.
Defined.

Lemma activation_registers_two_listeners_witness :
  deps (initial unmounted_page) = None /\
  surface (exec (useOnClickOutside 1%positive 7%positive)
             (initial unmounted_page))
  = [("mousedown"%string, handler); ("touchstart"%string, handler)].
Proof.
  split; [reflexivity |].
  exact (proj1 (activation_registers_two_listeners count_calls
                  (initial unmounted_page) 1%positive 7%positive eq_refl)).
Defined.

End Witnesses.

(** ** Both inputs of the decision matter *)

Section DecisionInputs.

Import Scenario.

(** Same element, two targets: the button inside, the paragraph outside. *)
Example decision_varies_with_target :
  invoked (call count_calls handler (mousedown_on (Some 2%positive)))
    (initial mounted_page) = false /\
  invoked (call count_calls handler (mousedown_on (Some 3%positive)))
    (initial mounted_page) = true.
Proof. split; vm_compute; reflexivity. Qed.

(** Same target, the ref assigned to the div, to the paragraph, to nothing. *)
Example decision_varies_with_current :
  invoked (call count_calls handler (mousedown_on (Some 2%positive)))
    (initial mounted_page) = false /\
  invoked (call count_calls handler (mousedown_on (Some 2%positive)))
    (initial (assign_ref 1%positive (Some paragraph) unmounted_page)) = true /\
  invoked (call count_calls handler (mousedown_on (Some 2%positive)))
    (initial (assign_ref 1%positive None unmounted_page)) = true.
Proof. repeat split; vm_compute; reflexivity. Qed.

End DecisionInputs.


(** ** The handler and the delivery of events, in full *)

Section DeliveryFacts.

Context {U : Type} (cb_body : CbId -> Page U -> Page U).

Implicit Types (w : World U) (e : Event) (h : Closure) (p : Page U).

(** X1: the handler invokes the callback exactly in three cases: the ref
    holds no element, the event has no origin node, or the origin node is
    not inside the element's subtree. In every other case, that is for an
    origin node inside the present element, it does not. *)
Theorem handler_invokes_iff h e w :
  invoked (call cb_body h e) w = true <->
  current (captured_elementRef h) (page w) = None \/
  target e = None \/
  exists el t,
    current (captured_elementRef h) (page w) = Some el /\
    target e = Some t /\ ~ inside t el.
Proof.
  rewrite invoked_call. unfold starts_outside.
  destruct (current (captured_elementRef h) (page w)) as [el|];
    [| by split; [left |]].
  destruct (target e) as [t|]; [| by split; [right; left |]].
  rewrite bool_decide_eq_true, subtree_ids_inside.
  split.
  - intros Hout. right; right. by exists el, t.
  - intros [? | [? | (el' & t' & Hel & Ht & Hout)]]; [done | done |].
    congruence.
Qed.

(** X2: an event that is neither a mousedown nor a touchstart (a click, a
    key press, a mouseup) reaches no handler of the hook: in every world the
    component reaches it leaves the world as it is and invokes nothing. *)
Theorem other_event_types_are_ignored p acts e :
  type e <> "mousedown"%string ->
  type e <> "touchstart"%string ->
  dispatchEvent cb_body e (exec (run cb_body acts) (initial p))
  = (e, exec (run cb_body acts) (initial p)).
Proof.
  intros Hm Ht.
  destruct (reachable_consistent cb_body p acts) as (hs & Hw).
  rewrite (dispatchEvent_consistent cb_body hs _ e Hw).
  unfold is_press. rewrite bool_decide_eq_false_2 by tauto. done.
Qed.

End DeliveryFacts.

(** ** A component that keeps its ref and its callback *)

Section SettledFacts.

Context {U : Type} (cb_body : CbId -> Page U -> Page U).

Implicit Types (w : World U) (e : Event) (h : Closure) (p : Page U).

Lemma subscribed_once_initial elementRef callback p :
  subscribed_once elementRef callback (initial p).
Proof. left. split; [done | apply consistent_with_initial]. Qed.

Lemma subscribed_once_step elementRef callback a w :
  match a with
  | Render r c => (r, c) = (elementRef, callback)
  | Unmount => False
  | _ => True
  end ->
  subscribed_once elementRef callback w ->
  subscribed_once elementRef callback (exec (step cb_body a) w).
Proof.
  intros Ha Hw.
  assert (Hsame : forall w', same_subscriptions w w' ->
                             subscribed_once elementRef callback w').
  { intros w' Hsub. pose proof Hsub as (_ & _ & Hd & _).
    destruct Hw as [[Hnone Hw] | [Hsome Hw]]; [left | right];
      (split; [congruence |]);
      by apply (consistent_with_same_subscriptions _ w w'). }
  destruct a as [r c | | e | f]; [| done | |].
  - injection Ha as -> ->.
    destruct Hw as [[Hnone Hw] | [Hsome Hw]]; right.
    + pose proof (step_consistent_with cb_body (Render elementRef callback)
                    [] w Hw) as Hw1.
      simpl new_closures in Hw1.
      rewrite decide_False in Hw1 by congruence.
      destruct Hw as (_ & _ & Hf & _).
      assert (Hn : next_fn w = 0).
      { destruct (next_fn w); [done | discriminate]. }
      rewrite Hn in Hw1. split; [| exact Hw1].
      apply useOnClickOutside_world.
    + simpl. unfold exec. rewrite useOnClickOutside_same by done.
      by split.
  - rewrite step_interact. apply Hsame, dispatchEvent_subscriptions.
  - apply Hsame. by repeat split.
Qed.

Lemma settled_subscribed_once elementRef callback acts w :
  settled elementRef callback acts ->
  subscribed_once elementRef callback w ->
  subscribed_once elementRef callback (exec (run cb_body acts) w).
Proof.
  intros Hacts. revert w.
  induction Hacts as [|a acts Ha _ IH]; intros w Hw; [done |].
  rewrite run_cons. by apply IH, subscribed_once_step.
Qed.

(** The one handler of a settled component. *)
Lemma settled_handler p acts elementRef callback :
  settled elementRef callback acts ->
  deps (exec (run cb_body acts) (initial p)) = Some (elementRef, callback) ->
  consistent_with [{| fn_id := 0; captured_elementRef := elementRef;
                      captured_callback := callback |}]
    (exec (run cb_body acts) (initial p)).
Proof.
  intros Hacts Hd.
  destruct (settled_subscribed_once elementRef callback acts (initial p)
              Hacts (subscribed_once_initial elementRef callback p))
    as [[Hnone _] | [_ Hw]]; [congruence | exact Hw].
Qed.

Lemma dispatchEvent_pair e w :
  dispatchEvent cb_body e w = (e, exec (dispatchEvent cb_body e) w).
Proof.
  unfold exec. rewrite <- (deliver_event cb_body
                             (listeners_for (type e) (surface w)) e w) at 2.
  rewrite <- dispatchEvent_unfold. by destruct (dispatchEvent cb_body e w).
Qed.

(** X3: the handler reads [elementRef.current] when the event arrives. For
    a component that is never unmounted and renders with the same ref and
    callback throughout, an event whose origin node is inside the element
    that the ref holds at that moment leaves the whole world unchanged,
    also when the ref was assigned after the listeners were registered. *)
Theorem inside_press_changes_nothing p acts elementRef callback e el t :
  settled elementRef callback acts ->
  deps (exec (run cb_body acts) (initial p)) = Some (elementRef, callback) ->
  current elementRef (page (exec (run cb_body acts) (initial p))) = Some el ->
  target e = Some t ->
  inside t el ->
  dispatchEvent cb_body e (exec (run cb_body acts) (initial p))
  = (e, exec (run cb_body acts) (initial p)).
Proof.
  intros Hacts Hd Hcur Ht Hin.
  pose proof (settled_handler p acts elementRef callback Hacts Hd) as Hw.
  rewrite dispatchEvent_pair.
  rewrite (exec_dispatchEvent_single cb_body _ _ e Hw). simpl.
  rewrite Hcur. unfold starts_outside. rewrite Ht.
  rewrite bool_decide_eq_false_2; [by rewrite andb_false_r |].
  intros Hno. by apply Hno, subtree_ids_inside.
Qed.

Lemma deliver_all_single es w h :
  consistent_with [h] w ->
  (forall p', current (captured_elementRef h)
                (cb_body (captured_callback h) p')
              = current (captured_elementRef h) p') ->
  calls (exec (run cb_body (Interact <$> es)) w)
  = calls w ++
    replicate
      (length (outside_presses (current (captured_elementRef h) (page w)) es))
      (captured_callback h).
Proof.
  intros Hw Hstable. revert w Hw.
  induction es as [|e es IH]; intros w Hw.
  - simpl. by rewrite app_nil_r.
  - rewrite fmap_cons, run_cons, step_interact.
    rewrite (exec_dispatchEvent_single cb_body h w e Hw).
    unfold outside_presses. simpl.
    destruct (is_press e &&
              starts_outside (current (captured_elementRef h) (page w)) e).
    + rewrite IH; [| by eapply consistent_with_same_subscriptions;
                       [apply same_subscriptions_after_callback |]].
      simpl. rewrite Hstable. by rewrite <- app_assoc.
    + by rewrite IH.
Qed.

(** X4: for a component that is never unmounted and renders with the same
    ref and callback throughout, the callback is invoked over a whole
    sequence of events once for each press that starts outside, and for
    nothing else. The callback must leave [elementRef.current] as it is;
    a callback that reassigns the ref changes what later events are
    compared with. *)
Theorem outside_presses_fire_once_each p acts elementRef callback es :
  settled elementRef callback acts ->
  deps (exec (run cb_body acts) (initial p)) = Some (elementRef, callback) ->
  (forall p', current elementRef (cb_body callback p') = current elementRef p') ->
  calls (exec (run cb_body (Interact <$> es))
           (exec (run cb_body acts) (initial p)))
  = calls (exec (run cb_body acts) (initial p)) ++
    replicate
      (length (outside_presses
                 (current elementRef
                    (page (exec (run cb_body acts) (initial p)))) es))
      callback.
Proof.
  intros Hacts Hd Hstable.
  pose proof (settled_handler p acts elementRef callback Hacts Hd) as Hw.
  by rewrite (deliver_all_single es _ _ Hw Hstable).
Qed.

End SettledFacts.

(** ** Whole runs *)

Section RunFacts.

Context {U : Type} (cb_body : CbId -> Page U -> Page U).

Implicit Types (w : World U) (e : Event) (h : Closure) (p : Page U).
Implicit Types (hs : list Closure).

Lemma exec_dispatchEvent_consistent hs w e :
  consistent_with hs w ->
  exec (dispatchEvent cb_body e) w
  = if is_press e then exec (deliver cb_body hs e) w else w.
Proof.
  intros Hw. unfold exec. rewrite (dispatchEvent_consistent cb_body hs w e Hw).
  by destruct (is_press e).
Qed.

(** What one step adds to the record of calls. *)
Lemma step_calls a hs w :
  consistent_with hs w ->
  exists delta,
    calls (exec (step cb_body a) w) = calls w ++ delta /\
    length delta <= length (presses (events_of [a])) * length hs /\
    Forall (fun c => c ∈ captured_callback <$> hs) delta.
Proof.
  intros Hw. destruct a as [elementRef callback | | e | f].
  - exists []. rewrite app_nil_r.
    split; [apply useOnClickOutside_world |]. split; [simpl; lia | done].
  - exists []. rewrite app_nil_r. split; [done |]. split; [simpl; lia | done].
  - rewrite step_interact, (exec_dispatchEvent_consistent hs w e Hw).
    unfold presses. simpl.
    destruct (is_press e); simpl.
    + destruct (deliver_after_callbacks cb_body hs e w)
        as (cs & -> & Hlen & Hcs).
      exists cs. rewrite calls_after_callbacks.
      split; [done |]. split; [lia |].
      eapply Forall_impl; [exact Hcs |].
      intros c (h & Hin & <-). apply list_elem_of_fmap. by exists h.
    + exists []. rewrite app_nil_r. split; [done |]. split; [simpl; lia | done].
  - exists []. rewrite app_nil_r. split; [done |]. split; [simpl; lia | done].
Qed.

(** The function objects that a step creates close over the callback
    that the step passes. *)
Lemma new_closures_rendered a w :
  length (new_closures a w) <= length (rendered_callbacks [a]) /\
  Forall (fun h => captured_callback h ∈ rendered_callbacks [a])
    (new_closures a w).
Proof.
  destruct a as [elementRef callback | | e | f]; simpl; try by split.
  destruct (decide (deps w = Some (elementRef, callback))); simpl.
  - split; [lia | done].
  - split; [lia |]. constructor; [| done]. simpl. apply elem_of_cons. by left.
Qed.

Lemma events_of_cons (a : Action U) acts :
  events_of (a :: acts) = events_of [a] ++ events_of acts.
Proof. unfold events_of. simpl. by rewrite app_nil_r. Qed.

Lemma rendered_callbacks_cons (a : Action U) acts :
  rendered_callbacks (a :: acts)
  = rendered_callbacks [a] ++ rendered_callbacks acts.
Proof. unfold rendered_callbacks. simpl. by rewrite app_nil_r. Qed.

Lemma run_calls_origin acts hs w :
  consistent_with hs w ->
  exists delta,
    calls (exec (run cb_body acts) w) = calls w ++ delta /\
    length delta
    <= length (presses (events_of acts))
       * (length hs + length (rendered_callbacks acts)) /\
    Forall (fun c => c ∈ captured_callback <$> hs \/
                     c ∈ rendered_callbacks acts) delta.
Proof.
  revert hs w. induction acts as [|a acts IH]; intros hs w Hw.
  { exists []. simpl. rewrite app_nil_r. split; [done |]. split; [lia | done]. }
  rewrite run_cons.
  destruct (step_calls a hs w Hw) as (d0 & Hc0 & Hl0 & Ho0).
  destruct (IH _ _ (step_consistent_with cb_body a hs w Hw))
    as (d1 & Hc1 & Hl1 & Ho1).
  destruct (new_closures_rendered a w) as [Hnl Hno].
  exists (d0 ++ d1). rewrite Hc1, Hc0, <- app_assoc.
  split; [done |]. split.
  - rewrite events_of_cons, rendered_callbacks_cons. unfold presses in *.
    rewrite List.filter_app, !length_app in *. nia.
  - rewrite rendered_callbacks_cons. apply Forall_app. split.
    + eapply Forall_impl; [exact Ho0 |]. intros c Hc. by left.
    + eapply Forall_impl; [exact Ho1 |].
      intros c [Hin | Hin].
      * rewrite fmap_app in Hin. apply elem_of_app in Hin as [Hin | Hin];
          [by left | right].
        apply list_elem_of_fmap in Hin as (h & -> & Hh).
        rewrite Forall_forall in Hno.
        apply elem_of_app. left. by apply Hno.
      * right. apply elem_of_app. by right.
Qed.

(** X5: the hook invokes no callback but those it was given: whatever the
    component and the user do, every invocation on record is of a callback
    that the component passed to the hook earlier in the run. *)
Theorem only_given_callbacks_are_invoked p acts :
  Forall (fun c => c ∈ rendered_callbacks acts)
    (calls (exec (run cb_body acts) (initial p))).
Proof.
  destruct (run_calls_origin acts [] (initial p) (consistent_with_initial p))
    as (delta & -> & _ & Horigin).
  simpl. eapply Forall_impl; [exact Horigin |].
  intros c [Hin | Hin]; [| done]. by apply elem_of_nil in Hin.
Qed.

(** X6: rendering, re-rendering and unmounting invoke nothing, and a press
    invokes at most one callback for each render that went before: over
    any run there are at most as many invocations as presses were
    delivered times renders took place. *)
Theorem invocations_bounded_by_presses_and_renders p acts :
  length (calls (exec (run cb_body acts) (initial p)))
  <= length (presses (events_of acts)) * length (rendered_callbacks acts).
Proof.
  destruct (run_calls_origin acts [] (initial p) (consistent_with_initial p))
    as (delta & -> & Hlen & _).
  exact Hlen.
Qed.

End RunFacts.

(** ** Subscriptions over the life of the component *)

Section SubscriptionFacts.

Context {U : Type} (cb_body : CbId -> Page U -> Page U).

Implicit Types (w : World U) (e : Event) (h : Closure) (p : Page U).

(** X7: the hook subscribes again exactly when a dependency changed. In a
    world the component has reached, a render leaves the listeners on the
    surface as they are if and only if it passes the ref and the callback
    of the previous render; a first render, a new ref or a new callback
    puts other function objects there. *)
Theorem resubscribes_exactly_on_dependency_change
    p acts elementRef callback :
  surface (exec (useOnClickOutside elementRef callback)
             (exec (run cb_body acts) (initial p)))
  = surface (exec (run cb_body acts) (initial p))
  <-> deps (exec (run cb_body acts) (initial p))
      = Some (elementRef, callback).
Proof.
  destruct (reachable_consistent cb_body p acts) as (hs & Hc & _).
  set (w := exec (run cb_body acts) (initial p)) in *.
  split.
  - intros Hsame.
    destruct (decide (deps w = Some (elementRef, callback))) as [Hd | Hne];
      [done | exfalso].
    destruct (useOnClickOutside_runs elementRef callback w Hc Hne)
      as (_ & _ & _ & _ & _ & Hs).
    rewrite Hs in Hsame. apply (f_equal length) in Hsame.
    rewrite length_app in Hsame. simpl in Hsame. lia.
  - intros Hd. unfold exec. by rewrite useOnClickOutside_same.
Qed.



End SubscriptionFacts.

(** ** The component of the documentation *)

Section DocExampleFacts.

Import DocExample.

Implicit Types (w : World Console) (e : Event) (hs : list Closure).

Lemma renders_S k : renders (S k) = renders k ++ render k.
Proof.
  unfold renders. rewrite seq_S, flat_map_app. reflexivity.
Qed.

Lemma handleClickOutside_inj n m :
  handleClickOutside n = handleClickOutside m -> n = m.
Proof. unfold handleClickOutside. lia. Qed.

Lemma current_attach (p : Page Console) :
  current ref (attach p) = Some the_div.
Proof. unfold current, attach. simpl. by rewrite lookup_insert_eq. Qed.

Lemma length_listeners hs :
  length (flat_map listeners_of hs) = 2 * length hs.
Proof. induction hs as [|h hs IH]; simpl; lia. Qed.

Lemma flat_map_fmap {A B C} (f : B -> list C) (g : A -> B) (l : list A) :
  flat_map f (g <$> l) = flat_map (fun x => f (g x)) l.
Proof.
  induction l as [|x l IH]; [done |].
  change (f (g x) ++ flat_map f (g <$> l)
          = f (g x) ++ flat_map (fun x => f (g x)) l).
  by rewrite IH.
Qed.

(** The world after the first [k] renders: one function object for each. *)
Lemma renders_state k :
  let w := exec (run log_click (renders k)) (initial blank) in
  consistent_with (handler_of <$> seq 0 k) w /\
  next_fn w = k /\ calls w = [] /\ user (page w) = [] /\
  match k with
  | 0 => deps w = None
  | S j =>
      deps w = Some (ref, handleClickOutside j) /\
      current ref (page w) = Some the_div
  end.
Proof.
  induction k as [|k IH]; [by repeat split |].
  rewrite renders_S, run_app.
  set (w0 := exec (run log_click (renders k)) (initial blank)) in *.
  destruct IH as (Hw0 & Hn0 & Hc0 & Hu0 & Hk).
  unfold render. rewrite !run_cons.
  set (w1 := exec (step log_click (Mutate attach)) w0).
  change (exec (run log_click []) ?w) with w.
  assert (Hw1 : consistent_with (handler_of <$> seq 0 k) w1).
  { pose proof (step_consistent_with log_click (Mutate attach) _ w0 Hw0)
      as Hstep.
    simpl new_closures in Hstep. by rewrite app_nil_r in Hstep. }
  assert (Hd1 : deps w1 <> Some (ref, handleClickOutside k)).
  { change (deps w0 <> Some (ref, handleClickOutside k)).
    destruct k as [|j]; [by rewrite Hk |].
    destruct Hk as (-> & _). intros Heq.
    assert (Hcb : handleClickOutside j = handleClickOutside (S j))
      by congruence.
    apply handleClickOutside_inj in Hcb. lia. }
  pose proof (step_consistent_with log_click
                (Render ref (handleClickOutside k)) _ w1 Hw1) as Hw2.
  simpl new_closures in Hw2. rewrite decide_False in Hw2 by exact Hd1.
  change (next_fn w1) with (next_fn w0) in Hw2. rewrite Hn0 in Hw2.
  change (step log_click (Render ref (handleClickOutside k)))
    with (useOnClickOutside (U:=Console) ref (handleClickOutside k)) in *.
  destruct (useOnClickOutside_world ref (handleClickOutside k) w1)
    as (Hd2 & Hc2 & Hp2).
  destruct Hw1 as (Hcl1 & _).
  destruct (useOnClickOutside_runs ref (handleClickOutside k) w1 Hcl1 Hd1)
    as (_ & _ & _ & _ & Hn2 & _).
  rewrite Hd2, Hc2, Hp2, Hn2.
  change (next_fn w1) with (next_fn w0). rewrite Hn0.
  split; [by rewrite seq_S, fmap_app |].
  repeat split; try done. apply current_attach.
Qed.


Lemma exec_call_guard h e w :
  exec (call log_click h e) w
  = if starts_outside (current (captured_elementRef h) (page w)) e
    then after_callback log_click (captured_callback h) w else w.
Proof.
  unfold exec, call. rewrite handleClick_guard. simpl.
  by destruct (starts_outside _ e).
Qed.

(** Delivery to handlers that all close over [ref]: each of them logs, or
    none does. *)
Lemma deliver_logs hs e w :
  Forall (fun h => captured_elementRef h = ref) hs ->
  user (page (exec (deliver log_click hs e) w))
  = user (page w) ++
    replicate (if starts_outside (current ref (page w)) e
               then length hs else 0) "Clicked outside!"%string /\
  current ref (page (exec (deliver log_click hs e) w))
  = current ref (page w).
Proof.
  intros Hrefs. revert w.
  induction Hrefs as [|h hs Hh _ IH]; intros w.
  { simpl. destruct (starts_outside _ e); simpl; by rewrite app_nil_r. }
  rewrite exec_deliver_cons, exec_call_guard, Hh.
  destruct (starts_outside (current ref (page w)) e) eqn:Hout.
  - destruct (IH (after_callback log_click (captured_callback h) w))
      as [Hu Hcur].
    change (current ref
              (page (after_callback log_click (captured_callback h) w)))
      with (current ref (page w)) in Hu, Hcur.
    rewrite Hu, Hcur, Hout.
    change (user (page (after_callback log_click (captured_callback h) w)))
      with (user (page w) ++ ["Clicked outside!"%string]).
    split; [by rewrite <- app_assoc | done].
  - destruct (IH w) as [Hu Hcur]. rewrite Hu, Hcur, Hout.
    split; [done | done].
Qed.

Lemma console_after_events es hs w :
  consistent_with hs w ->
  Forall (fun h => captured_elementRef h = ref) hs ->
  user (page (exec (run log_click (Interact <$> es)) w))
  = user (page w) ++
    replicate (length hs * length (outside_presses (current ref (page w)) es))
      "Clicked outside!"%string.
Proof.
  intros Hw Hrefs. revert w Hw.
  induction es as [|e es IH]; intros w Hw.
  { simpl. by rewrite Nat.mul_0_r, app_nil_r. }
  rewrite fmap_cons, run_cons, step_interact.
  rewrite (exec_dispatchEvent_consistent log_click hs w e Hw).
  unfold outside_presses. simpl.
  destruct (is_press e); simpl; [| by rewrite IH].
  destruct (deliver_logs hs e w Hrefs) as [Hu Hcur].
  rewrite IH by (eapply consistent_with_same_subscriptions;
                 [apply deliver_subscriptions | exact Hw]).
  rewrite Hu, Hcur. unfold outside_presses.
  destruct (starts_outside (current ref (page w)) e); simpl.
  - rewrite <- app_assoc, <- replicate_add. f_equal. f_equal. lia.
  - by rewrite app_nil_r.
Qed.


End DocExampleFacts.

(** ** These properties at the scenario *)

Section MoreWitnesses.

Import Scenario.

(** A click on the paragraph while the hook is active. *)
Lemma other_event_types_are_ignored_witness :
  dispatchEvent count_calls
    {| type := "click"; target := Some 3%positive |}
    (exec (run count_calls mounting) (initial unmounted_page))
  = ({| type := "click"; target := Some 3%positive |},
     exec (run count_calls mounting) (initial unmounted_page)).
Proof.
  apply (other_event_types_are_ignored count_calls unmounted_page mounting
           {| type := "click"; target := Some 3%positive |});
    discriminate.
Defined.

(** The hook runs before the ref is assigned; the press on the button
    comes after the framework has assigned it. *)
Lemma inside_press_changes_nothing_witness :
  current 1%positive
    (page (exec (run count_calls [Render 1%positive 7%positive])
             (initial unmounted_page))) = None /\
  inside 2%positive div /\
  dispatchEvent count_calls (mousedown_on (Some 2%positive))
    (exec (run count_calls [Render 1%positive 7%positive;
                            Mutate (assign_ref 1%positive (Some div));
                            Render 1%positive 7%positive])
       (initial unmounted_page))
  = (mousedown_on (Some 2%positive),
     exec (run count_calls [Render 1%positive 7%positive;
                            Mutate (assign_ref 1%positive (Some div));
                            Render 1%positive 7%positive])
       (initial unmounted_page)).
Proof.
  assert (Hin : inside 2%positive div)
    by (apply has_inclusive_descendant_spec; reflexivity).
  split; [reflexivity |]. split; [exact Hin |].
  apply (inside_press_changes_nothing count_calls unmounted_page
           [Render 1%positive 7%positive;
            Mutate (assign_ref 1%positive (Some div));
            Render 1%positive 7%positive]
           1%positive 7%positive (mousedown_on (Some 2%positive))
           div 2%positive);
    [repeat constructor | reflexivity | reflexivity | reflexivity | exact Hin].
Defined.

(** Five events, three of them presses outside the div. *)
Lemma outside_presses_fire_once_each_witness :
  calls (exec (run count_calls
                 (Interact <$> [mousedown_on (Some 3%positive);
                                touchstart_on (Some 2%positive);
                                {| type := "click"; target := Some 3%positive |};
                                touchstart_on None;
                                mousedown_on (Some 10%positive)]))
           (exec (run count_calls mounting) (initial unmounted_page)))
  = [7%positive; 7%positive; 7%positive].
Proof.
  apply (outside_presses_fire_once_each count_calls unmounted_page mounting
           1%positive 7%positive
           [mousedown_on (Some 3%positive);
            touchstart_on (Some 2%positive);
            {| type := "click"; target := Some 3%positive |};
            touchstart_on None;
            mousedown_on (Some 10%positive)]).
  - repeat constructor.
  - reflexivity.
  - intros p'. reflexivity.
Defined.

End MoreWitnesses.
